(** * Yproblem: periodic cell problem for the effective permittivity

    A shallow embedding of [Yproblem.py] (function [Y_solver] with its two
    local classes [PeriodicBoundary] and [Coeff]) and the properties of it
    that the specification states.

    Modelling conventions.
    - Python floats (coordinates, permittivities, integrals) are exact
      rationals [Q]; rounding is not modelled.
    - A point handed to [inside] / [map] is a length-2 array, modelled as a
      record with the two components [c0] (= [x[0]]) and [c1] (= [x[1]]).
    - [markers] (a cell [MeshFunction] of ints) is a [list Z] indexed by the
      cell index; the [values] buffer of [eval_cell] is a [list Q].
    - UFL expressions are symbolic objects in the source; they are kept as
      a small syntax tree, and the library entry points the solver calls
      on them ([assemble], [solve]) are operations of a [Backend]. *)

From Stdlib Require Import QArith Qabs Lqa ZArith Bool.
From stdpp Require Import base option list.

Local Open Scope Q_scope.

(** ** The [dolfin] helpers used by the source *)

Module Dolfin.

(** [DOLFIN_EPS], the default tolerance of [near]: 3.0e-16. *)
Definition DOLFIN_EPS : Q := 3 # 10000000000000000.

(** [near(x, x0, eps)]: [x0 - eps <= x <= x0 + eps]. *)
Definition near_eps (x x0 eps : Q) : bool :=
  Qle_bool (x0 - eps) x && Qle_bool x (x0 + eps).

(** [near(x, x0)] with the default tolerance, as the source calls it. *)
Definition near (x x0 : Q) : bool := near_eps x x0 DOLFIN_EPS.

End Dolfin.

(** ** Points *)

Record point : Type := Point { c0 : Q; c1 : Q }.

(** Two points are the same location when their coordinates are equal as
    rationals. *)
Definition pt_eq (p q : point) : Prop := c0 p == c0 q /\ c1 p == c1 q.

(** ** class PeriodicBoundary(SubDomain) *)

Module PeriodicBoundary.
Import Dolfin.

(** [inside(self, x, on_boundary)] *)
Definition inside (x : point) (on_boundary : bool) : bool :=
  (near (c0 x) 0 || near (c1 x) 0)
  && negb ((near (c0 x) 0 && near (c1 x) 1)
           || (near (c0 x) 1 && near (c1 x) 0))
  && on_boundary.

(** [map(self, x, y)]: writes both components of the output array [y];
    the value returned here is [y] after the call. *)
Definition map (x y : point) : point :=
  if near (c0 x) 1 && near (c1 x) 1 then
    {| c0 := c0 x - 1; c1 := c1 x - 1 |}
  else if near (c0 x) 1 then
    {| c0 := c0 x - 1; c1 := c1 x |}
  else
    {| c0 := c0 x; c1 := c1 x - 1 |}.

End PeriodicBoundary.

(** ** Exceptions and results *)

(** The exceptions a run can end with.  [IndexError]: an array or mesh
    function indexed out of range.  [RuntimeError]: the form compiler
    rejects an expression.  [ConfigurationError] belongs to the error
    taxonomy of the design document; no statement of the source raises
    it. *)
Inductive exn : Type := IndexError | RuntimeError | ConfigurationError.

Definition result (A : Type) : Type := exn + A.

Definition ret {A} (a : A) : result A := inr a.
Definition raise {A} (e : exn) : result A := inl e.
Definition bind {A B} (m : result A) (k : A -> result B) : result B :=
  match m with
  | inl e => inl e
  | inr a => k a
  end.

Notation "x <~ m ;; k" := (bind m (fun x => k))
  (at level 100, m at next level, right associativity).

(** [values[i]] and [values[i] = v] on an array, raising out of range. *)
Definition getitem {A} (l : list A) (i : nat) : result A :=
  match l !! i with
  | Some a => ret a
  | None => raise IndexError
  end.

Definition setitem {A} (l : list A) (i : nat) (v : A) : result (list A) :=
  if decide (i < length l)%nat then ret (<[i:=v]> l) else raise IndexError.

(** ** class Coeff(Expression) *)

Module Coeff.

(** [eval_cell(self, values, x, cell)], with the three names it closes
    over ([markers], [inner_permittivity], [outer_permittivity]) as
    leading arguments and [cell.index] for [cell].  The result is the
    buffer [values] after the call. *)
Definition eval_cell (markers : list Z) (inner_permittivity outer_permittivity : Q)
    (values : list Q) (x : point) (cell_index : nat) : result (list Q) :=
  tag <~ getitem markers cell_index ;;
  if (tag =? 1)%Z then setitem values 0 inner_permittivity
  else setitem values 0 outer_permittivity.

End Coeff.

(** ** UFL expressions and forms *)

Module Ufl.

(** The expression objects the solver builds.  [Argument 0] is
    [TestFunction(V)] and [Argument 1] is [TrialFunction(V)]: UFL
    identifies an argument of a given space by its number, so two calls
    of [TrialFunction(V)] denote the same object.  [Coefficient f] is a
    [Function(V)], named by the slot [f] of its degree-of-freedom vector
    in the heap of vectors. *)
Inductive expr : Type :=
  | Permittivity
  | Argument (number : nat)
  | Coefficient (f : nat)
  | IntValue (n : Z)
  | Grad (e : expr)
  | Dx (e : expr) (i : nat)
  | Dot (a b : expr)
  | Product (a b : expr)
  | Sum (a b : expr)
  | Neg (e : expr).

(** [integrand * dx] *)
Inductive form : Type := Integral (integrand : expr).

Definition TestFunction : expr := Argument 0.
Definition TrialFunction : expr := Argument 1.

(** Does the argument with this number occur in the expression? *)
Fixpoint has_argument (n : nat) (e : expr) : bool :=
  match e with
  | Permittivity | Coefficient _ | IntValue _ => false
  | Argument m => Nat.eqb m n
  | Grad a | Dx a _ | Neg a => has_argument n a
  | Dot a b | Product a b | Sum a b => has_argument n a || has_argument n b
  end.

(** The [Function(V)] objects an expression refers to. *)
Fixpoint coefficients (e : expr) : list nat :=
  match e with
  | Permittivity | Argument _ | IntValue _ => []
  | Coefficient f => [f]
  | Grad a | Dx a _ | Neg a => coefficients a
  | Dot a b | Product a b | Sum a b => coefficients a ++ coefficients b
  end.

(** The rank of a form: 0 (functional), 1 (linear) or 2 (bilinear); a
    trial function without a test function is rejected. *)
Definition rank (a : form) : result nat :=
  let '(Integral e) := a in
  match has_argument 0 e, has_argument 1 e with
  | false, false => ret 0%nat
  | true, false => ret 1%nat
  | true, true => ret 2%nat
  | false, true => raise RuntimeError
  end.

End Ufl.

(** ** The finite-element backend *)

(** What the solver uses of the mesh, the constrained P1 space and the
    linear algebra: the cells of the mesh with their volumes and
    midpoints, the (cellwise constant) partial derivatives of a P1
    function given by its degree-of-freedom vector, the vector a fresh
    [Function(V)] starts with, the assembly of linear and bilinear forms
    from the tabulated coefficient, and the linear solve, which returns
    the solution vector it stores into its second argument, or nothing
    when the library gives up on the system (a [RuntimeError]).  The two
    assembly operations receive the permittivity of every cell, the
    vectors of the functions occurring in the integrand, and the
    integrand. *)
Class Backend : Type := {
  Vec : Type;
  Mat : Type;
  num_cells : nat;
  cell_midpoint : nat -> point;
  cell_volume : nat -> Q;
  cell_gradient : Vec -> nat -> nat -> Q;
  zero_vector : Vec;
  assemble_vector : list Q -> list Vec -> Ufl.expr -> Vec;
  assemble_matrix : list Q -> list Vec -> Ufl.expr -> Mat;
  solve : Mat -> Vec -> Vec -> option Vec
}.

(** A 2x2 matrix, row by row. *)
Definition matrix2 : Type := (Q * Q) * (Q * Q).

Section Solver.
Context {B : Backend}.
Import Ufl.

(** What [assemble] can return. *)
Inductive tensor : Type :=
  | Scalar (s : Q)
  | Vector (b : Vec)
  | Matrix (A : Mat).

(** The heap of degree-of-freedom vectors of the [Function(V)] objects.
    [Function(V)] allocates a new slot; [f.vector()] is that slot. *)
Definition new_function (heap : list Vec) : nat * list Vec :=
  (length heap, heap ++ [zero_vector]).

(** Evaluate a coefficient given by its [eval_cell] on every cell of a
    list, in order. *)
Fixpoint tabulate (eval_cell : list Q -> point -> nat -> result (list Q))
    (cells : list nat) : result (list Q) :=
  match cells with
  | [] => ret []
  | c :: cs =>
      values <~ eval_cell [0] (cell_midpoint c) c ;;
      k <~ getitem values 0 ;;
      ks <~ tabulate eval_cell cs ;;
      ret (k :: ks)
  end.

(** The value on cell [c] of an integrand without arguments that is
    constant on each cell; [k] is the value of the permittivity there.
    Other integrands are rejected. *)
Fixpoint integrand_at (k : Q) (heap : list Vec) (c : nat) (e : expr)
    : result Q :=
  match e with
  | Permittivity => ret k
  | IntValue n => ret (inject_Z n)
  | Dx (Coefficient f) i =>
      F <~ getitem heap f ;;
      ret (cell_gradient F c i)
  | Sum a b =>
      x <~ integrand_at k heap c a ;;
      y <~ integrand_at k heap c b ;;
      ret (x + y)
  | Product a b =>
      x <~ integrand_at k heap c a ;;
      y <~ integrand_at k heap c b ;;
      ret (x * y)
  | Neg a =>
      x <~ integrand_at k heap c a ;;
      ret (- x)
  | _ => raise RuntimeError
  end.

(** Sum over the cells [c], [c+1], ... of volume times integrand. *)
Fixpoint sum_cells (table : list Q) (c : nat) (heap : list Vec) (e : expr)
    : result Q :=
  match table with
  | [] => ret 0
  | k :: rest =>
      v <~ integrand_at k heap c e ;;
      s <~ sum_cells rest (S c) heap e ;;
      ret (cell_volume c * v + s)
  end.

(** The vectors of the [Function(V)] objects a form refers to, in order
    of occurrence: what the assembler reads besides the coefficient. *)
Fixpoint gather (heap : list Vec) (fs : list nat) : result (list Vec) :=
  match fs with
  | [] => ret []
  | f :: rest =>
      F <~ getitem heap f ;;
      Fs <~ gather heap rest ;;
      ret (F :: Fs)
  end.

(** [assemble(a)]: the coefficient is evaluated on every cell, then the
    form is assembled according to its rank. *)
Definition assemble (eval_cell : list Q -> point -> nat -> result (list Q))
    (heap : list Vec) (a : form) : result tensor :=
  r <~ rank a ;;
  table <~ tabulate eval_cell (seq 0 num_cells) ;;
  let '(Integral e) := a in
  match r with
  | 0%nat => s <~ sum_cells table 0 heap e ;; ret (Scalar s)
  | 1%nat =>
      Fs <~ gather heap (coefficients e) ;;
      ret (Vector (assemble_vector table Fs e))
  | _ =>
      Fs <~ gather heap (coefficients e) ;;
      ret (Matrix (assemble_matrix table Fs e))
  end.

(** [solve(A, x, b)] on assembled objects: [x] is a slot of the heap and
    is overwritten with the solution; a failure of the library is a
    [RuntimeError]. *)
Definition solve_into (heap : list Vec) (A : tensor) (x : nat) (b : tensor)
    : result (list Vec) :=
  match A, b with
  | Matrix M, Vector v =>
      x0 <~ getitem heap x ;;
      match solve M x0 v with
      | Some u => setitem heap x u
      | None => raise RuntimeError
      end
  | _, _ => raise RuntimeError
  end.

(** A number handed to the ['%12.6e'] format. *)
Definition to_float (t : tensor) : result Q :=
  match t with
  | Scalar s => ret s
  | _ => raise RuntimeError
  end.

(** What a run leaves behind: the 2x2 matrix written to the file
    [effective] and the two correctors it returns. *)
Record output : Type := {
  effective : matrix2;
  correctors : Vec * Vec
}.

(** [Y_solver(mesh_folder, mesh_name, inner_permittivity,
    outer_permittivity)].  The mesh read from the file is the one of the
    backend and [markers] is the mesh function read with it. *)
Definition Y_solver (markers : list Z) (inner_permittivity outer_permittivity : Q)
    : result output :=
  let eval_cell := Coeff.eval_cell markers inner_permittivity outer_permittivity in
  let permittivity := Permittivity in
  let f1 := TrialFunction in let f2 := TrialFunction in
  let v1 := TestFunction in let v2 := TestFunction in
  let a1 := Integral (Product permittivity (Dot (Grad f1) (Grad v1))) in
  let L1 := Integral (Product (Neg (Dx v1 0)) permittivity) in
  let a2 := Integral (Product permittivity (Dot (Grad f2) (Grad v2))) in
  let L2 := Integral (Product (Neg (Dx v2 1)) permittivity) in
  let '(F1, heap) := new_function [] in
  let f1 := Coefficient F1 in
  let '(F2, heap) := new_function heap in
  let f2 := Coefficient F2 in
  A1 <~ assemble eval_cell heap a1 ;;
  b1 <~ assemble eval_cell heap L1 ;;
  heap <~ solve_into heap A1 F1 b1 ;;
  A2 <~ assemble eval_cell heap a2 ;;
  b2 <~ assemble eval_cell heap L2 ;;
  heap <~ solve_into heap A2 F2 b2 ;;
  A11 <~ assemble eval_cell heap
           (Integral (Product permittivity (Sum (Dx f1 0) (IntValue 1)))) ;;
  let A12 := 0 in
  let A21 := 0 in
  A22 <~ assemble eval_cell heap
           (Integral (Product permittivity (Sum (Dx f2 1) (IntValue 1)))) ;;
  A11 <~ to_float A11 ;;
  A22 <~ to_float A22 ;;
  r1 <~ getitem heap F1 ;;
  r2 <~ getitem heap F2 ;;
  ret {| effective := ((A11, A12), (A21, A22)); correctors := (r1, r2) |}.

(** The variant the design document allows: the stiffness matrix is
    assembled once and used for both solves; only the load vector is
    assembled again.  Everything else is as in [Y_solver]. *)
Definition Y_solver_reuse (markers : list Z)
    (inner_permittivity outer_permittivity : Q) : result output :=
  let eval_cell := Coeff.eval_cell markers inner_permittivity outer_permittivity in
  let permittivity := Permittivity in
  let f := TrialFunction in
  let v := TestFunction in
  let a := Integral (Product permittivity (Dot (Grad f) (Grad v))) in
  let L1 := Integral (Product (Neg (Dx v 0)) permittivity) in
  let L2 := Integral (Product (Neg (Dx v 1)) permittivity) in
  let '(F1, heap) := new_function [] in
  let f1 := Coefficient F1 in
  let '(F2, heap) := new_function heap in
  let f2 := Coefficient F2 in
  A <~ assemble eval_cell heap a ;;
  b1 <~ assemble eval_cell heap L1 ;;
  heap <~ solve_into heap A F1 b1 ;;
  b2 <~ assemble eval_cell heap L2 ;;
  heap <~ solve_into heap A F2 b2 ;;
  A11 <~ assemble eval_cell heap
           (Integral (Product permittivity (Sum (Dx f1 0) (IntValue 1)))) ;;
  A22 <~ assemble eval_cell heap
           (Integral (Product permittivity (Sum (Dx f2 1) (IntValue 1)))) ;;
  A11 <~ to_float A11 ;;
  A22 <~ to_float A22 ;;
  r1 <~ getitem heap F1 ;;
  r2 <~ getitem heap F2 ;;
  ret {| effective := ((A11, 0), (0, A22)); correctors := (r1, r2) |}.

(** The permittivity of a cell as a function of the tagging, and the
    integral over the mesh of a function that is constant on each cell:
    the quantities the statements below are phrased with. *)
Definition permittivity_of (markers : list Z) (inner outer : Q) (c : nat) : Q :=
  if decide (markers !! c = Some 1%Z) then inner else outer.

Definition integral (g : nat -> Q) : Q :=
  foldr (fun c s => cell_volume c * g c + s) 0 (seq 0 num_cells).

(** The integrands of the cell problem in direction [i], and the
    corrector of that direction for a given table of permittivities:
    what the linear solve, started from the vector of a fresh function,
    returns for the assembled system. *)
Definition stiffness_integrand : expr :=
  Product Permittivity (Dot (Grad TrialFunction) (Grad TestFunction)).

Definition load_integrand (i : nat) : expr :=
  Product (Neg (Dx TestFunction i)) Permittivity.

Definition flux_integrand (f i : nat) : expr :=
  Product Permittivity (Sum (Dx (Coefficient f) i) (IntValue 1)).

Definition corrector (table : list Q) (i : nat) : option Vec :=
  solve (assemble_matrix table [] stiffness_integrand) zero_vector
        (assemble_vector table [] (load_integrand i)).

(** How a run on a mesh with a tag for every cell ends, given the
    permittivity [k] of the cells and what the two solves return. *)
Definition finish (k : nat -> Q) (s0 s1 : option Vec) : result output :=
  match s0, s1 with
  | Some f0, Some f1 =>
      ret {| effective :=
               ((integral (fun c => k c * (cell_gradient f0 c 0 + 1)), 0),
                (0, integral (fun c => k c * (cell_gradient f1 c 1 + 1))));
             correctors := (f0, f1) |}
  | _, _ => raise RuntimeError
  end.

End Solver.

(** ** A laminate

    The unit square cut into the two vertical strips 0 <= x <= 1/2 and
    1/2 <= x <= 1, each strip cut into two triangles: cells 0 and 1 make
    the left strip, cells 2 and 3 the right one.  The periodic map
    identifies top with bottom and right with left, which leaves two
    degrees of freedom: [u0] on the line x = 0 and [u1] on the line
    x = 1/2.  A function of the space is linear in x on each strip and
    does not depend on y.  Linear and bilinear forms are assembled from
    the gradients of the two basis functions; the solve fixes [u0 = 0]
    (the matrix of the cell problem determines the solution up to a
    constant only) and solves the remaining equation for [u1], which it
    cannot do when the coefficient of [u1] is 0. *)
Module Laminate.
Import Ufl.

(** d/dx on cell [c] of the basis function of degree of freedom [j]. *)
Definition basis_slope (j c : nat) : Q :=
  match j, (c <? 2)%nat with
  | O, true => - (2)
  | O, false => 2
  | _, true => 2
  | _, false => - (2)
  end.

(** Values of integrands on a cell: scalars, vectors of the plane, and
    what the assembler of this mesh does not handle. *)
Inductive value : Type :=
  | VScalar (s : Q)
  | VVector (a b : Q)
  | VUnsupported.

(** The integrand on cell [c], with the basis function [test] for
    [Argument 0] and [trial] for [Argument 1]. *)
Fixpoint eval (table : list Q) (test trial c : nat) (e : expr) : value :=
  match e with
  | Permittivity =>
      match table !! c with
      | Some k => VScalar k
      | None => VUnsupported
      end
  | IntValue n => VScalar (inject_Z n)
  | Grad (Argument n) =>
      VVector (basis_slope (if n is O then test else trial) c) 0
  | Dx (Argument n) i =>
      VScalar (if i is O then basis_slope (if n is O then test else trial) c
               else 0)
  | Dot a b =>
      match eval table test trial c a, eval table test trial c b with
      | VVector a0 a1, VVector b0 b1 => VScalar (a0 * b0 + a1 * b1)
      | _, _ => VUnsupported
      end
  | Product a b =>
      match eval table test trial c a, eval table test trial c b with
      | VScalar x, VScalar y => VScalar (x * y)
      | _, _ => VUnsupported
      end
  | Sum a b =>
      match eval table test trial c a, eval table test trial c b with
      | VScalar x, VScalar y => VScalar (x + y)
      | _, _ => VUnsupported
      end
  | Neg a =>
      match eval table test trial c a with
      | VScalar x => VScalar (- x)
      | _ => VUnsupported
      end
  | _ => VUnsupported
  end.

(** One entry of an assembled vector or matrix: the sum over the four
    cells of a quarter of the integrand. *)
Definition entry (table : list Q) (test trial : nat) (e : expr) : Q :=
  foldr (fun c s =>
           match eval table test trial c e with
           | VScalar v => (1 # 4) * v + s
           | _ => s
           end) 0 (seq 0 4).

#[local] Instance backend : Backend := {|
  Vec := Q * Q;
  Mat := (Q * Q) * (Q * Q);
  num_cells := 4;
  cell_midpoint := fun c =>
    match c with
    | 0%nat => {| c0 := 1 # 3; c1 := 1 # 3 |}
    | 1%nat => {| c0 := 1 # 6; c1 := 2 # 3 |}
    | 2%nat => {| c0 := 5 # 6; c1 := 1 # 3 |}
    | _ => {| c0 := 2 # 3; c1 := 2 # 3 |}
    end;
  cell_volume := fun _ => 1 # 4;
  cell_gradient := fun F c i =>
    match i with
    | O => if (c <? 2)%nat then 2 * (snd F - fst F) else 2 * (fst F - snd F)
    | _ => 0
    end;
  zero_vector := (0, 0);
  assemble_vector := fun table _ e => (entry table 0 0 e, entry table 1 0 e);
  assemble_matrix := fun table _ e =>
    ((entry table 0 0 e, entry table 0 1 e),
     (entry table 1 0 e, entry table 1 1 e));
  solve := fun A _ b =>
    if Qeq_bool (snd (snd A)) 0 then None
    else Some (0, snd b / snd (snd A))
|}.

(** The tagging with the inclusion in the left strip. *)
Definition strips : list Z := [1%Z; 1%Z; 2%Z; 2%Z].

End Laminate.

(** ** Triangulations of the unit square and their periodic P1 space

    The function space of the solver, [FunctionSpace(mesh, "P", 1,
    constrained_domain = PeriodicBoundary())], for a mesh given by its
    vertices and its triangles.  A function of the space has one value
    per vertex, and a vertex that the periodic boundary maps onto a
    master vertex shares the value of that vertex. *)
Module P1.
Import Ufl.

Record mesh : Type := {
  vertices : list point;
  cells : list (nat * nat * nat)
}.

(** The sum of a list of rationals. *)
Definition qsum (l : list Q) : Q := foldr Qplus 0 l.

(** [l] is [l'] in another order, up to the equality test [eqb]. *)
Fixpoint remove_first {A} (eqb : A -> A -> bool) (a : A) (l : list A)
    : option (list A) :=
  match l with
  | [] => None
  | b :: l' =>
      if eqb a b then Some l'
      else option_map (cons b) (remove_first eqb a l')
  end.

Fixpoint same_elements {A} (eqb : A -> A -> bool) (l l' : list A) : bool :=
  match l with
  | [] => match l' with [] => true | _ => false end
  | a :: l0 =>
      match remove_first eqb a l' with
      | Some l'' => same_elements eqb l0 l''
      | None => false
      end
  end.

Section Space.
Variable m : mesh.

Definition coordinates (v : nat) : point :=
  nth v (vertices m) {| c0 := 0; c1 := 0 |}.

(** A point on the boundary of the unit square. *)
Definition on_boundary (x : point) : bool :=
  Dolfin.near (c0 x) 0 || Dolfin.near (c0 x) 1
  || Dolfin.near (c1 x) 0 || Dolfin.near (c1 x) 1.

Definition same_point (p q : point) : bool :=
  Qeq_bool (c0 p) (c0 q) && Qeq_bool (c1 p) (c1 q).

(** The vertices [PeriodicBoundary.inside] accepts keep their degree of
    freedom; another boundary vertex takes the one of the master vertex
    found at the point [PeriodicBoundary.map] returns for it. *)
Definition is_master (v : nat) : bool :=
  PeriodicBoundary.inside (coordinates v) (on_boundary (coordinates v)).

Definition master (v : nat) : nat :=
  let x := coordinates v in
  if is_master v then v
  else if on_boundary x then
    match find (fun w => is_master w
                         && same_point (coordinates w) (PeriodicBoundary.map x x))
               (seq 0 (length (vertices m))) with
    | Some w => w
    | None => v
    end
  else v.

(** The value at vertex [v] of the function with the vector [F]. *)
Definition value (F : list Q) (v : nat) : Q := nth (master v) F 0.

(** Twice the signed area of a triangle, its area, its midpoint, and the
    two partial derivatives of a function on it. *)
Definition det (c : nat * nat * nat) : Q :=
  let '(a, b, d) := c in
  let pa := coordinates a in
  let pb := coordinates b in
  let pd := coordinates d in
  (c0 pb - c0 pa) * (c1 pd - c1 pa) - (c0 pd - c0 pa) * (c1 pb - c1 pa).

Definition volume (c : nat * nat * nat) : Q := (1 # 2) * Qabs (det c).

Definition midpoint (c : nat * nat * nat) : point :=
  let '(a, b, d) := c in
  let pa := coordinates a in
  let pb := coordinates b in
  let pd := coordinates d in
  {| c0 := (c0 pa + c0 pb + c0 pd) / 3; c1 := (c1 pa + c1 pb + c1 pd) / 3 |}.

Definition gradient (F : list Q) (c : nat * nat * nat) (i : nat) : Q :=
  let '(a, b, d) := c in
  let pa := coordinates a in
  let pb := coordinates b in
  let pd := coordinates d in
  let ua := value F a in
  let ub := value F b in
  let ud := value F d in
  match i with
  | 0%nat =>
      ((ub - ua) * (c1 pd - c1 pa) - (ud - ua) * (c1 pb - c1 pa)) / det c
  | 1%nat =>
      ((c0 pb - c0 pa) * (ud - ua) - (c0 pd - c0 pa) * (ub - ua)) / det c
  | _ => 0
  end.

Definition cell (c : nat) : nat * nat * nat :=
  nth c (cells m) (0%nat, 0%nat, 0%nat).

(** The space over the mesh, with the assembly of linear and bilinear
    forms and the linear solve left to be chosen. *)
Definition space (Mat : Type)
    (assemble_vector : list Q -> list (list Q) -> expr -> list Q)
    (assemble_matrix : list Q -> list (list Q) -> expr -> Mat)
    (solve : Mat -> list Q -> list Q -> option (list Q)) : Backend := {|
  Vec := list Q;
  Mat := Mat;
  num_cells := length (cells m);
  cell_midpoint := fun c => midpoint (cell c);
  cell_volume := fun c => volume (cell c);
  cell_gradient := fun F c i => gradient F (cell c) i;
  zero_vector := repeat 0 (length (vertices m));
  assemble_vector := assemble_vector;
  assemble_matrix := assemble_matrix;
  solve := solve
|}.

(** The sides of a triangle, each with the triangle on its left. *)
Definition oriented_edges (c : nat * nat * nat) : list (nat * nat) :=
  let '(a, b, d) := c in
  if Qle_bool (det c) 0 then [(b, a); (d, b); (a, d)]
  else [(a, b); (b, d); (d, a)].

Definition edges : list (nat * nat) := flat_map oriented_edges (cells m).

(** What a function sees of a side: the degrees of freedom at its two
    ends and the vector from the first end to the second; and the same
    for the side run through the other way. *)
Definition edge_key (e : nat * nat) : (nat * nat) * (Q * Q) :=
  let '(p, q) := e in
  ((master p, master q),
   (c0 (coordinates q) - c0 (coordinates p),
    c1 (coordinates q) - c1 (coordinates p))).

Definition reversed_key (e : nat * nat) : (nat * nat) * (Q * Q) :=
  let '(p, q) := e in
  ((master q, master p),
   (c0 (coordinates p) - c0 (coordinates q),
    c1 (coordinates p) - c1 (coordinates q))).

Definition key_eqb (k k' : (nat * nat) * (Q * Q)) : bool :=
  Nat.eqb (fst (fst k)) (fst (fst k')) && Nat.eqb (snd (fst k)) (snd (fst k'))
  && Qeq_bool (fst (snd k)) (fst (snd k'))
  && Qeq_bool (snd (snd k)) (snd (snd k')).

(** A triangulation of the periodic unit cell: no triangle is flat; each
    side of a triangle is, run through the other way, the side of a
    triangle again, either the same side or its copy on the opposite
    edge of the square, with the same degrees of freedom at its ends;
    and the triangles have total area 1. *)
Definition periodic_triangulation : bool :=
  forallb (fun c => negb (Qeq_bool (det c) 0)) (cells m)
  && same_elements key_eqb (map reversed_key edges) (map edge_key edges)
  && Qeq_bool (qsum (map volume (cells m))) 1.

(** Assembly of the forms of the cell problem: the basis function of a
    degree of freedom is the function with the value 1 there and 0 at
    the other ones. *)
Definition basis (j : nat) : list Q :=
  map (fun v => if Nat.eqb v j then 1 else 0) (seq 0 (length (vertices m))).

Inductive ival : Type :=
  | IScalar (s : Q)
  | IVector (a b : Q)
  | IUnsupported.

Fixpoint eval (table : list Q) (test trial c : nat) (e : expr) : ival :=
  match e with
  | Permittivity =>
      match table !! c with
      | Some k => IScalar k
      | None => IUnsupported
      end
  | IntValue n => IScalar (inject_Z n)
  | Grad (Argument n) =>
      let F := basis (if n is O then test else trial) in
      IVector (gradient F (cell c) 0) (gradient F (cell c) 1)
  | Dx (Argument n) i =>
      IScalar (gradient (basis (if n is O then test else trial)) (cell c) i)
  | Dot a b =>
      match eval table test trial c a, eval table test trial c b with
      | IVector a0 a1, IVector b0 b1 => IScalar (a0 * b0 + a1 * b1)
      | _, _ => IUnsupported
      end
  | Product a b =>
      match eval table test trial c a, eval table test trial c b with
      | IScalar x, IScalar y => IScalar (x * y)
      | _, _ => IUnsupported
      end
  | Sum a b =>
      match eval table test trial c a, eval table test trial c b with
      | IScalar x, IScalar y => IScalar (x + y)
      | _, _ => IUnsupported
      end
  | Neg a =>
      match eval table test trial c a with
      | IScalar x => IScalar (- x)
      | _ => IUnsupported
      end
  | _ => IUnsupported
  end.

Definition entry (table : list Q) (test trial : nat) (e : expr) : Q :=
  foldr (fun c s =>
           match eval table test trial c e with
           | IScalar v => volume (cell c) * v + s
           | _ => s
           end) 0 (seq 0 (length (cells m))).

Definition assemble_vector (table : list Q) (Fs : list (list Q)) (e : expr)
    : list Q :=
  map (fun j => entry table j 0 e) (seq 0 (length (vertices m))).

Definition assemble_matrix (table : list Q) (Fs : list (list Q)) (e : expr)
    : list (list Q) :=
  map (fun j => map (fun l => entry table j l e)
                    (seq 0 (length (vertices m))))
      (seq 0 (length (vertices m))).

End Space.

(** The laminate as a triangulation: the vertices (0,0), (1/2,0), (1,0),
    (0,1), (1/2,1), (1,1) and two triangles in each strip.  Its space
    has the degrees of freedom of the vertices 0 and 1; the solve fixes
    the first at 0 and solves the equation of the second. *)
Definition strips_mesh : mesh := {|
  vertices := [ {| c0 := 0; c1 := 0 |}; {| c0 := 1 # 2; c1 := 0 |};
                {| c0 := 1; c1 := 0 |}; {| c0 := 0; c1 := 1 |};
                {| c0 := 1 # 2; c1 := 1 |}; {| c0 := 1; c1 := 1 |} ];
  cells := [ (0, 1, 4); (0, 4, 3); (1, 2, 5); (1, 5, 4) ]%nat
|}.

(** The unit square cut into 2 x 2 squares of two triangles each. *)
Definition grid_mesh : mesh := {|
  vertices := [ {| c0 := 0; c1 := 0 |}; {| c0 := 1 # 2; c1 := 0 |};
                {| c0 := 1; c1 := 0 |}; {| c0 := 0; c1 := 1 # 2 |};
                {| c0 := 1 # 2; c1 := 1 # 2 |}; {| c0 := 1; c1 := 1 # 2 |};
                {| c0 := 0; c1 := 1 |}; {| c0 := 1 # 2; c1 := 1 |};
                {| c0 := 1; c1 := 1 |} ];
  cells := [ (0, 1, 4); (0, 4, 3); (1, 2, 5); (1, 5, 4);
             (3, 4, 7); (3, 7, 6); (4, 5, 8); (4, 8, 7) ]%nat
|}.

(** The same triangles with the middle vertex of the top edge moved to
    (3/4, 1), where it has no partner on the bottom edge. *)
Definition skewed_mesh : mesh := {|
  vertices := [ {| c0 := 0; c1 := 0 |}; {| c0 := 1 # 2; c1 := 0 |};
                {| c0 := 1; c1 := 0 |}; {| c0 := 0; c1 := 1 |};
                {| c0 := 3 # 4; c1 := 1 |}; {| c0 := 1; c1 := 1 |} ];
  cells := [ (0, 1, 4); (0, 4, 3); (1, 2, 5); (1, 5, 4) ]%nat
|}.

Definition strips_solve (A : list (list Q)) (x b : list Q) : option (list Q) :=
  let pivot := nth 1 (nth 1 A []) 0 in
  if Qeq_bool pivot 0 then None
  else Some [0; nth 1 b 0 / pivot; 0; 0; 0; 0].

Definition strips_space : Backend :=
  space strips_mesh (list (list Q)) (assemble_vector strips_mesh)
        (assemble_matrix strips_mesh) strips_solve.

End P1.

(** ** Vocabulary of the statements

    "[a] is within tolerance of [b]": the distance between the two is at
    most [DOLFIN_EPS]; as a proposition and as a test. *)
Definition close (a b : Q) : Prop := Qabs (a - b) <= Dolfin.DOLFIN_EPS.
Definition approx (a b : Q) : bool := Qle_bool (Qabs (a - b)) Dolfin.DOLFIN_EPS.

(** Two 2x2 matrices with the same entries as rationals. *)
Definition matrix2_eq (m n : matrix2) : Prop :=
  fst (fst m) == fst (fst n) /\ snd (fst m) == snd (fst n)
  /\ fst (snd m) == fst (snd n) /\ snd (snd m) == snd (snd n).

(** The four corners of the unit square. *)
Definition origin : point := {| c0 := 0; c1 := 0 |}.
Definition corner01 : point := {| c0 := 0; c1 := 1 |}.
Definition corner10 : point := {| c0 := 1; c1 := 0 |}.
Definition corner11 : point := {| c0 := 1; c1 := 1 |}.

(** Exchange of the two phases in a tagging: the cells of the inclusion
    (tag 1) get the tag 2, all other cells get the tag 1. *)
Definition swap_tag (tag : Z) : Z := if (tag =? 1)%Z then 2%Z else 1%Z.

(** * Properties *)

(** ** Tolerance comparisons *)

Section Near.
Import Dolfin.

Lemma close_interval a b :
  close a b <-> b - DOLFIN_EPS <= a /\ a <= b + DOLFIN_EPS.
Proof.
  unfold close. rewrite Qabs_Qle_condition. split; intros [H1 H2]; split; lra.
Qed.

Lemma near_close x x0 : near x x0 = true <-> close x x0.
Proof.
  rewrite close_interval. unfold near, near_eps.
  rewrite andb_true_iff, !Qle_bool_iff. tauto.
Qed.

Lemma approx_close a b : approx a b = true <-> close a b.
Proof. unfold approx, close. apply Qle_bool_iff. Qed.

Lemma near_approx x x0 : near x x0 = approx x x0.
Proof.
  apply eq_true_iff_eq. rewrite near_close, approx_close. tauto.
Qed.

Lemma near_not_close x x0 : near x x0 = false <-> ~ close x x0.
Proof. rewrite <- near_close. symmetry. apply not_true_iff_false. Qed.

End Near.

(** ** The periodic boundary *)

Section Periodic.
Import Dolfin PeriodicBoundary.

(** C3.  The periodic map sends a point with both coordinates within
    tolerance of 1 to (x-1, y-1), so that (1,1) goes to (0,0); otherwise
    a point with first coordinate within tolerance of 1 to (x-1, y); and
    every other point to (x, y-1).  The previous content of the output
    array plays no part. *)
Theorem map_by_cases (x y : point) :
  map x y =
    (if approx (c0 x) 1 && approx (c1 x) 1 then
       {| c0 := c0 x - 1; c1 := c1 x - 1 |}
     else if approx (c0 x) 1 then
       {| c0 := c0 x - 1; c1 := c1 x |}
     else
       {| c0 := c0 x; c1 := c1 x - 1 |})
  /\ map corner11 y = origin.
Proof.
  split.
  - unfold map. now rewrite !near_approx.
  - reflexivity.
Qed.

(** C4.  [inside] answers true exactly when the caller asserts
    [on_boundary], the point has x within tolerance of 0 (left edge) or
    y within tolerance of 0 (bottom edge), and the point is within
    tolerance of neither (0,1) nor (1,0). *)
Theorem inside_iff (x : point) (on_boundary : bool) :
  inside x on_boundary = true <->
    on_boundary = true
    /\ (close (c0 x) 0 \/ close (c1 x) 0)
    /\ ~ (close (c0 x) 0 /\ close (c1 x) 1)
    /\ ~ (close (c0 x) 1 /\ close (c1 x) 0).
Proof.
  unfold inside.
  rewrite !andb_true_iff, negb_true_iff, orb_false_iff, orb_true_iff.
  rewrite !andb_false_iff, !near_close, !near_not_close.
  split.
  - intros [[H1 [H2 H3]] H4]. repeat split; tauto.
  - intros [H1 [H2 [H3 H4]]]. repeat split; try tauto.
    + destruct (near (c0 x) 0) eqn:E.
      * right. intro C. apply H3. split; [now apply near_close | exact C].
      * left. now apply near_not_close.
    + destruct (near (c0 x) 1) eqn:E.
      * right. intro C. apply H4. split; [now apply near_close | exact C].
      * left. now apply near_not_close.
Qed.

Lemma near_true_interval x x0 :
  near x x0 = true -> x0 - (3 # 10000000000000000) <= x
                      /\ x <= x0 + (3 # 10000000000000000).
Proof. intros H. apply near_close, close_interval in H. exact H. Qed.

Lemma near_false_interval x x0 :
  near x x0 = false -> x < x0 - (3 # 10000000000000000)
                       \/ x0 + (3 # 10000000000000000) < x.
Proof.
  intros H. apply near_not_close in H. rewrite close_interval in H.
  unfold DOLFIN_EPS in H.
  destruct (Qlt_le_dec x (x0 - (3 # 10000000000000000))) as [L|L];
    [now left|].
  destruct (Qlt_le_dec (x0 + (3 # 10000000000000000)) x) as [R|R];
    [now right|].
  exfalso. apply H. split; assumption.
Qed.

(** Case analysis on the two tests of [map], with the outcome of each
    test turned into inequalities. *)
Ltac map_cases x :=
  unfold map, pt_eq; simpl;
  destruct (near (c0 x) 1) eqn:?N0; simpl;
  [ destruct (near (c1 x) 1) eqn:?N1; simpl | ];
  repeat match goal with
         | H : near _ _ = true |- _ => apply near_true_interval in H
         | H : near _ _ = false |- _ => apply near_false_interval in H
         end.

Lemma map_never_corner10 (x y : point) : ~ pt_eq (map x y) corner10.
Proof.
  map_cases x; intros [E0 E1]; simpl in *; lra.
Qed.

Lemma map_corner01_only_from_above (x y : point) :
  pt_eq (map x y) corner01 <-> pt_eq x {| c0 := 0; c1 := 2 |}.
Proof.
  split.
  - map_cases x; intros [E0 E1]; simpl in *; split; lra.
  - map_cases x; intros [E0 E1]; simpl in *; split; lra.
Qed.

(** C5, as far as it holds.  Neither (0,1) nor (1,0) satisfies [inside].
    The map never returns (1,0); it returns (0,1) for the input (0,2)
    and for no other, hence for no point of the unit square.  The map
    does send both corners somewhere else: to (0,0), a point that
    satisfies [inside]. *)
Theorem corners_and_pairing :
  (forall b, inside corner01 b = false /\ inside corner10 b = false)
  /\ (forall x y, ~ pt_eq (map x y) corner10)
  /\ (forall x y, pt_eq (map x y) corner01 <-> pt_eq x {| c0 := 0; c1 := 2 |})
  /\ (forall y, map corner01 y = origin /\ map corner10 y = origin)
  /\ inside origin true = true.
Proof.
  split; [intros []; split; reflexivity|].
  split; [exact map_never_corner10|].
  split; [exact map_corner01_only_from_above|].
  split; [intros y; split; reflexivity | reflexivity].
Qed.

(** C5 fails as stated: the corner (0,1) is mapped to another point, the
    origin, which satisfies [inside]; so is the corner (1,0).  And (0,1)
    is what the map returns for the point (0,2). *)
Lemma corner_mapped_to_origin :
  map corner01 corner01 = origin
  /\ map corner10 corner10 = origin
  /\ ~ pt_eq origin corner01
  /\ ~ pt_eq origin corner10
  /\ inside origin true = true
  /\ map {| c0 := 0; c1 := 2 |} origin = corner01.
Proof.
  repeat split; try reflexivity; intros [E0 E1]; simpl in *; lra.
Qed.

End Periodic.

(** ** The coefficient field *)

Section Coefficient.
Import Coeff.

Lemma getitem_Some {A} (l : list A) i a : l !! i = Some a -> getitem l i = ret a.
Proof. unfold getitem. now intros ->. Qed.

Lemma getitem_None {A} (l : list A) i : l !! i = None -> getitem l i = raise IndexError.
Proof. unfold getitem. now intros ->. Qed.

Lemma setitem_head {A} (a : A) (l : list A) v : setitem (a :: l) 0 v = ret (v :: l).
Proof.
  unfold setitem. destruct (decide (0 < length (a :: l))%nat) as [|N];
    [reflexivity | simpl in N; lia].
Qed.

Lemma eval_cell_tagged markers inner outer a values x cell tag :
  markers !! cell = Some tag ->
  eval_cell markers inner outer (a :: values) x cell =
    ret ((if decide (tag = 1%Z) then inner else outer) :: values).
Proof.
  intros H. unfold eval_cell. rewrite (getitem_Some _ _ _ H). simpl.
  destruct (Z.eqb_spec tag 1) as [->|N].
  - rewrite setitem_head. now rewrite decide_True.
  - rewrite setitem_head. now rewrite decide_False.
Qed.

(** C6.  For a cell with a tag and a buffer with at least one slot,
    [eval_cell] ends without an exception, leaves in slot 0 the inner
    permittivity when the tag is 1 and the outer one otherwise, and
    changes nothing else: the buffer keeps its length and its other
    slots, and neither the point nor the old content of slot 0 has any
    influence. *)
Theorem eval_cell_value (markers : list Z) (inner outer : Q)
    (values : list Q) (x : point) (cell : nat) (tag : Z) :
  markers !! cell = Some tag ->
  (0 < length values)%nat ->
  exists values',
    eval_cell markers inner outer values x cell = ret values'
    /\ values' !! 0%nat = Some (if decide (tag = 1%Z) then inner else outer)
    /\ length values' = length values
    /\ (forall j, j <> 0%nat -> values' !! j = values !! j)
    /\ (forall x' a, eval_cell markers inner outer (<[0%nat:=a]> values) x' cell
                     = ret values').
Proof.
  intros Htag Hlen. destruct values as [|a values]; [simpl in Hlen; lia|].
  eexists. split; [apply eval_cell_tagged; exact Htag|].
  split; [reflexivity|]. split; [reflexivity|].
  split.
  - intros [|j] Hj; [congruence | reflexivity].
  - intros x' a'. simpl. apply eval_cell_tagged. exact Htag.
Qed.

Lemma eval_cell_value_witness :
  exists values',
    eval_cell [1%Z; 2%Z] 1 (117 # 10) [0; 5] origin 0 = ret values'
    /\ values' !! 0%nat = Some (if decide (1%Z = 1%Z) then 1 else 117 # 10)
    /\ length values' = length [0; 5]
    /\ (forall j, j <> 0%nat -> values' !! j = [0; 5] !! j)
    /\ (forall x' a, eval_cell [1%Z; 2%Z] 1 (117 # 10) (<[0%nat:=a]> [0; 5]) x' 0
                     = ret values').
Proof.
  apply (eval_cell_value [1%Z; 2%Z] 1 (117 # 10) [0; 5] origin 0 1%Z).
  - reflexivity.
  - simpl. lia.
Defined.

(** C10.  Whatever the tag of a cell is, as long as it is not 1 (2, but
    also 0, 3 or a negative number), [eval_cell] raises nothing and
    leaves the outer permittivity in slot 0. *)
Theorem eval_cell_other_tag (markers : list Z) (inner outer : Q)
    (values : list Q) (x : point) (cell : nat) (tag : Z) :
  markers !! cell = Some tag ->
  tag <> 1%Z ->
  (0 < length values)%nat ->
  eval_cell markers inner outer values x cell = ret (<[0%nat:=outer]> values).
Proof.
  intros Htag Hne Hlen. destruct values as [|a values]; [simpl in Hlen; lia|].
  rewrite (eval_cell_tagged _ _ _ _ _ _ _ _ Htag).
  now rewrite decide_False.
Qed.

Lemma eval_cell_other_tag_witness :
  eval_cell [0%Z; 3%Z; (-5)%Z] 1 (117 # 10) [0] origin 0 = ret (<[0%nat:=117 # 10]> [0])
  /\ eval_cell [0%Z; 3%Z; (-5)%Z] 1 (117 # 10) [0] origin 1 = ret (<[0%nat:=117 # 10]> [0])
  /\ eval_cell [0%Z; 3%Z; (-5)%Z] 1 (117 # 10) [0] origin 2 = ret (<[0%nat:=117 # 10]> [0]).
Proof.
  split; [|split].
  - apply (eval_cell_other_tag _ _ _ _ _ 0%nat 0%Z); [reflexivity | lia | simpl; lia].
  - apply (eval_cell_other_tag _ _ _ _ _ 1%nat 3%Z); [reflexivity | lia | simpl; lia].
  - apply (eval_cell_other_tag _ _ _ _ _ 2%nat (-5)%Z); [reflexivity | lia | simpl; lia].
Defined.

End Coefficient.

(** ** The solver *)

Section SolverFacts.
Context {B : Backend}.
Import Ufl.

Variables (markers : list Z) (inner outer : Q).

Let eval_cell := Coeff.eval_cell markers inner outer.
Let k := permittivity_of markers inner outer.

Lemma bind_ret {A C} (a : A) (f : A -> result C) : bind (ret a) f = f a.
Proof. reflexivity. Qed.

(** The coefficient on one cell, as [assemble] obtains it. *)
Lemma coefficient_at_cell c :
  (c < length markers)%nat ->
  (values <~ eval_cell [0] (cell_midpoint c) c ;; getitem values 0) = ret (k c).
Proof.
  intros Hc. destruct (lookup_lt_is_Some_2 markers c Hc) as [tag Htag].
  unfold eval_cell. rewrite (eval_cell_tagged _ _ _ _ _ _ _ _ Htag).
  rewrite bind_ret. unfold getitem. simpl.
  unfold k, permittivity_of. rewrite Htag.
  destruct (decide (tag = 1%Z)) as [->|N].
  - now rewrite decide_True.
  - rewrite decide_False; [reflexivity | congruence].
Qed.

Lemma coefficient_missing c :
  (length markers <= c)%nat ->
  eval_cell [0] (cell_midpoint c) c = raise IndexError.
Proof.
  intros Hc. unfold eval_cell, Coeff.eval_cell.
  rewrite getitem_None; [reflexivity | now apply lookup_ge_None_2].
Qed.

Lemma tabulate_cons c cs :
  tabulate eval_cell (c :: cs) =
    (v <~ (values <~ eval_cell [0] (cell_midpoint c) c ;; getitem values 0) ;;
     ks <~ tabulate eval_cell cs ;;
     ret (v :: ks)).
Proof. simpl. destruct (eval_cell [0] (cell_midpoint c) c); reflexivity. Qed.

(** With a tag for every cell of the list, the table is the list of the
    permittivities of the cells. *)
Lemma tabulate_covered cells :
  Forall (fun c => (c < length markers)%nat) cells ->
  tabulate eval_cell cells = ret (map k cells).
Proof.
  induction 1 as [|c cs Hc _ IH]; [reflexivity|].
  rewrite tabulate_cons, coefficient_at_cell by exact Hc.
  rewrite bind_ret, IH. reflexivity.
Qed.

(** With a cell of the list that has no tag, the evaluation of the
    coefficient ends in an [IndexError]. *)
Lemma tabulate_uncovered cells :
  Exists (fun c => (length markers <= c)%nat) cells ->
  tabulate eval_cell cells = raise IndexError.
Proof.
  induction cells as [|c cs IH]; intros Hex; [inversion Hex|].
  destruct (le_lt_dec (length markers) c) as [Hge|Hlt].
  - simpl. now rewrite coefficient_missing.
  - rewrite tabulate_cons, coefficient_at_cell, bind_ret by exact Hlt.
    inversion Hex as [? ? Hc|? ? Hcs]; subst; [lia|].
    now rewrite (IH Hcs).
Qed.

Lemma table_covered :
  (num_cells <= length markers)%nat ->
  tabulate eval_cell (seq 0 num_cells) = ret (map k (seq 0 num_cells)).
Proof.
  intros H. apply tabulate_covered, Forall_forall.
  intros c Hc. apply elem_of_seq in Hc. lia.
Qed.

Lemma table_uncovered :
  (length markers < num_cells)%nat ->
  tabulate eval_cell (seq 0 num_cells) = raise IndexError.
Proof.
  intros H. apply tabulate_uncovered, Exists_exists.
  exists (length markers). split; [apply elem_of_seq; lia | lia].
Qed.

Lemma sum_cells_flux heap f F i n c :
  heap !! f = Some F ->
  sum_cells (map k (seq c n)) c heap (flux_integrand f i) =
    ret (foldr (fun c s => cell_volume c * (k c * (cell_gradient F c i + 1)) + s)
               0 (seq c n)).
Proof.
  intros Hf. revert c. induction n as [|n IH]; intros c; [reflexivity|].
  simpl. rewrite (getitem_Some _ _ _ Hf). simpl.
  rewrite IH. reflexivity.
Qed.

Section Covered.
Hypothesis covered : (num_cells <= length markers)%nat.

Let table := map k (seq 0 num_cells).

Lemma assemble_bilinear heap e :
  has_argument 0 e = true -> has_argument 1 e = true -> coefficients e = [] ->
  assemble eval_cell heap (Integral e) = ret (Matrix (assemble_matrix table [] e)).
Proof.
  intros H0 H1 Hc. unfold assemble, rank. rewrite H0, H1, bind_ret.
  rewrite (table_covered covered), bind_ret, Hc. reflexivity.
Qed.

Lemma assemble_linear heap e :
  has_argument 0 e = true -> has_argument 1 e = false -> coefficients e = [] ->
  assemble eval_cell heap (Integral e) = ret (Vector (assemble_vector table [] e)).
Proof.
  intros H0 H1 Hc. unfold assemble, rank. rewrite H0, H1, bind_ret.
  rewrite (table_covered covered), bind_ret, Hc. reflexivity.
Qed.

Lemma assemble_flux heap f F i :
  heap !! f = Some F ->
  assemble eval_cell heap (Integral (flux_integrand f i)) =
    ret (Scalar (integral (fun c => k c * (cell_gradient F c i + 1)))).
Proof.
  intros Hf. unfold assemble. simpl rank. rewrite bind_ret.
  rewrite (table_covered covered), bind_ret.
  rewrite (sum_cells_flux _ _ _ _ _ _ Hf). reflexivity.
Qed.

(** The whole run when every cell has a tag. *)
Lemma Y_solver_run :
  Y_solver markers inner outer =
    finish k (corrector table 0) (corrector table 1).
Proof.
  unfold Y_solver, new_function. cbn [length app].
  rewrite assemble_bilinear by reflexivity. rewrite bind_ret.
  rewrite assemble_linear by reflexivity. rewrite bind_ret.
  cbn [solve_into]. rewrite (getitem_Some _ 0%nat zero_vector) by reflexivity.
  rewrite bind_ret. unfold finish, corrector, stiffness_integrand, load_integrand.
  destruct (solve _ zero_vector
              (assemble_vector table [] (Product (Neg (Dx TestFunction 0)) Permittivity)))
    as [f0|]; [|reflexivity].
  cbv [setitem]. cbn [length]. rewrite decide_True by lia.
  rewrite bind_ret. cbn [insert list_insert].
  rewrite assemble_bilinear by reflexivity. rewrite bind_ret.
  rewrite assemble_linear by reflexivity. rewrite bind_ret.
  cbn [solve_into]. rewrite (getitem_Some _ 1%nat zero_vector) by reflexivity.
  rewrite bind_ret.
  destruct (solve _ zero_vector
              (assemble_vector table [] (Product (Neg (Dx TestFunction 1)) Permittivity)))
    as [f1|]; [|reflexivity].
  cbv [setitem]. cbn [length]. rewrite decide_True by lia.
  rewrite bind_ret. cbn [insert list_insert].
  rewrite (assemble_flux _ 0%nat f0 0) by reflexivity.
  rewrite bind_ret.
  rewrite (assemble_flux _ 1%nat f1 1) by reflexivity.
  reflexivity.
Qed.

(** The same run with the stiffness matrix assembled once. *)
Lemma Y_solver_reuse_covered :
  Y_solver_reuse markers inner outer =
    finish k (corrector table 0) (corrector table 1).
Proof.
  unfold Y_solver_reuse, new_function. cbn [length app].
  rewrite assemble_bilinear by reflexivity. rewrite bind_ret.
  rewrite assemble_linear by reflexivity. rewrite bind_ret.
  cbn [solve_into]. rewrite (getitem_Some _ 0%nat zero_vector) by reflexivity.
  rewrite bind_ret. unfold finish, corrector, stiffness_integrand, load_integrand.
  destruct (solve _ zero_vector
              (assemble_vector table [] (Product (Neg (Dx TestFunction 0)) Permittivity)))
    as [f0|]; [|reflexivity].
  cbv [setitem]. cbn [length]. rewrite decide_True by lia.
  rewrite bind_ret. cbn [insert list_insert].
  rewrite assemble_linear by reflexivity. rewrite bind_ret.
  cbn [solve_into]. rewrite (getitem_Some _ 1%nat zero_vector) by reflexivity.
  rewrite bind_ret.
  destruct (solve _ zero_vector
              (assemble_vector table [] (Product (Neg (Dx TestFunction 1)) Permittivity)))
    as [f1|]; [|reflexivity].
  cbv [setitem]. cbn [length]. rewrite decide_True by lia.
  rewrite bind_ret. cbn [insert list_insert].
  rewrite (assemble_flux _ 0%nat f0 0) by reflexivity.
  rewrite bind_ret.
  rewrite (assemble_flux _ 1%nat f1 1) by reflexivity.
  reflexivity.
Qed.

End Covered.

(** The end of a run whose two solves return something. *)
Lemma finish_solved (kf : nat -> Q) (s0 s1 : option Vec) :
  s0 <> None -> s1 <> None ->
  finish kf s0 s1 =
    ret {| effective :=
             ((integral (fun c =>
                 kf c * (cell_gradient (default zero_vector s0) c 0 + 1)), 0),
              (0, integral (fun c =>
                 kf c * (cell_gradient (default zero_vector s1) c 1 + 1))));
           correctors := (default zero_vector s0, default zero_vector s1) |}.
Proof.
  destruct s0 as [f0|], s1 as [f1|]; intros H0 H1;
    try reflexivity; congruence.
Qed.

(** The whole run when some cell has no tag. *)
Lemma Y_solver_uncovered :
  (length markers < num_cells)%nat ->
  Y_solver markers inner outer = raise IndexError.
Proof.
  intros H. unfold Y_solver, new_function. cbn [length app].
  unfold assemble at 1. simpl rank. rewrite bind_ret.
  pose proof (table_uncovered H) as E. unfold eval_cell in E.
  rewrite E. reflexivity.
Qed.

Lemma Y_solver_reuse_uncovered :
  (length markers < num_cells)%nat ->
  Y_solver_reuse markers inner outer = raise IndexError.
Proof.
  intros H. unfold Y_solver_reuse, new_function. cbn [length app].
  unfold assemble at 1. simpl rank. rewrite bind_ret.
  pose proof (table_uncovered H) as E. unfold eval_cell in E.
  rewrite E. reflexivity.
Qed.

End SolverFacts.

(** ** What the solver produces *)

Section SolverClaims.
Context {B : Backend}.
Import Ufl.

(** C1.  When every cell has a tag and the two solves return the
    correctors f_0 and f_1, the run ends with the matrix
    [[A00, 0], [0, A11]], where A_ii is the integral over the mesh of the
    permittivity times (the derivative in direction i of the corrector
    f_i, plus 1), for i = 0 and i = 1, and f_0, f_1 are the correctors
    the run returns. *)
Theorem effective_tensor_integrals (markers : list Z) (inner outer : Q)
    (f : nat -> Vec) :
  (num_cells <= length markers)%nat ->
  let k := permittivity_of markers inner outer in
  corrector (map k (seq 0 num_cells)) 0 = Some (f 0%nat) ->
  corrector (map k (seq 0 num_cells)) 1 = Some (f 1%nat) ->
  let A := fun i => integral (fun c => k c * (cell_gradient (f i) c i + 1)) in
  exists out,
    Y_solver markers inner outer = ret out
    /\ effective out = ((A 0%nat, 0), (0, A 1%nat))
    /\ correctors out = (f 0%nat, f 1%nat).
Proof.
  intros covered k S0 S1 A. eexists. split.
  - rewrite (Y_solver_run _ _ _ covered). fold k. rewrite S0, S1. reflexivity.
  - split; reflexivity.
Qed.

(** C2.  Whatever the mesh, the tagging and the two permittivities are,
    the matrix a run produces has both off-diagonal entries equal to the
    constant 0. *)
Theorem off_diagonal_zero (markers : list Z) (inner outer : Q) (out : output) :
  Y_solver markers inner outer = ret out ->
  snd (fst (effective out)) = 0 /\ fst (snd (effective out)) = 0.
Proof.
  intros H.
  destruct (le_lt_dec num_cells (length markers)) as [covered|uncovered].
  - rewrite (Y_solver_run _ _ _ covered) in H. unfold finish in H.
    destruct (corrector _ 0) as [f0|]; [|discriminate H].
    destruct (corrector _ 1) as [f1|]; [|discriminate H].
    injection H as <-. split; reflexivity.
  - rewrite (Y_solver_uncovered _ _ _ uncovered) in H. discriminate H.
Qed.

(** The reused stiffness matrix gives the same run. *)
Lemma Y_solver_reuse_run (markers : list Z) (inner outer : Q) :
  Y_solver_reuse markers inner outer = Y_solver markers inner outer.
Proof.
  destruct (le_lt_dec num_cells (length markers)) as [covered|uncovered].
  - now rewrite (Y_solver_run _ _ _ covered), (Y_solver_reuse_covered _ _ _ covered).
  - now rewrite (Y_solver_uncovered _ _ _ uncovered),
      (Y_solver_reuse_uncovered _ _ _ uncovered).
Qed.

(** C8.  The bilinear forms of the two directions are one and the same
    form, its assembly does not depend on the state of the correctors,
    so the two stiffness matrices of a run are identical; and the solver
    that assembles the matrix once and uses it for both solves ends
    every run exactly as the solver that assembles it twice. *)
Theorem stiffness_assembled_once (markers : list Z) (inner outer : Q) :
  (forall heap heap',
     assemble (Coeff.eval_cell markers inner outer) heap
       (Integral (Product Permittivity (Dot (Grad TrialFunction) (Grad TestFunction)))) =
     assemble (Coeff.eval_cell markers inner outer) heap'
       (Integral (Product Permittivity (Dot (Grad TrialFunction) (Grad TestFunction)))))
  /\ Y_solver_reuse markers inner outer = Y_solver markers inner outer.
Proof.
  split; [intros heap heap'; reflexivity | apply Y_solver_reuse_run].
Qed.

(** C9, as far as it holds.  The solver does not look at the values of
    the permittivities: whatever they are, zero and negative ones
    included, no run ends in a [ConfigurationError]. *)
Theorem permittivity_not_validated (markers : list Z) (inner outer : Q) :
  Y_solver markers inner outer <> raise ConfigurationError.
Proof.
  destruct (le_lt_dec num_cells (length markers)) as [covered|uncovered].
  - rewrite (Y_solver_run _ _ _ covered). unfold finish.
    destruct (corrector _ 0) as [f0|]; [|discriminate].
    destruct (corrector _ 1) as [f1|]; discriminate.
  - rewrite (Y_solver_uncovered _ _ _ uncovered). discriminate.
Qed.

End SolverClaims.

(** ** The homogeneous medium *)

Section Homogeneous.
Context {B : Backend}.

Lemma integral_homogeneous (kf g : nat -> Q) (a : Q) :
  (forall c, kf c = a) ->
  integral (fun c => kf c * (g c + 1)) ==
    a * integral g + a * integral (fun _ => 1).
Proof.
  intros Hk. unfold integral.
  induction (seq 0 num_cells) as [|c cs IH]; simpl.
  - ring.
  - rewrite IH, Hk. ring.
Qed.

Lemma permittivity_of_equal markers a c : permittivity_of markers a a c = a.
Proof. unfold permittivity_of. now destruct (decide _). Qed.

(** The run on a medium with one permittivity [a], for a backend whose
    cells have total area 1 and whose functions have no mean slope. *)
Lemma homogeneous_run (markers : list Z) (a : Q) (f0 f1 : Vec) :
  integral (fun _ => 1) == 1 ->
  (forall (F : Vec) (i : nat), integral (fun c => cell_gradient F c i) == 0) ->
  (num_cells <= length markers)%nat ->
  corrector (map (permittivity_of markers a a) (seq 0 num_cells)) 0 = Some f0 ->
  corrector (map (permittivity_of markers a a) (seq 0 num_cells)) 1 = Some f1 ->
  exists out,
    Y_solver markers a a = ret out
    /\ fst (fst (effective out)) == a
    /\ snd (fst (effective out)) = 0
    /\ fst (snd (effective out)) = 0
    /\ snd (snd (effective out)) == a
    /\ correctors out = (f0, f1).
Proof.
  intros unit_area mean_slope covered S0 S1. eexists. split.
  - rewrite (Y_solver_run _ _ _ covered), S0, S1. reflexivity.
  - simpl. repeat split;
      rewrite (integral_homogeneous _ _ a) by apply permittivity_of_equal;
      rewrite mean_slope, unit_area; ring.
Qed.

End Homogeneous.

(** ** The periodic space has no mean slope *)

Section Divergence.
Import P1.

Lemma qsum_app (l l' : list Q) : qsum (l ++ l') == qsum l + qsum l'.
Proof.
  unfold qsum. induction l as [|a l IH]; simpl; [ring|].
  rewrite IH. ring.
Qed.

Section SameElements.
Context {A : Type} (eqb : A -> A -> bool) (g : A -> Q).
Hypothesis g_eqb : forall a b, eqb a b = true -> g a == g b.

Lemma remove_first_sum (a : A) (l l' : list A) :
  remove_first eqb a l = Some l' ->
  qsum (map g l) == g a + qsum (map g l').
Proof.
  revert l'. induction l as [|b l IH]; intros l' H; simpl in H; [discriminate H|].
  destruct (eqb a b) eqn:E.
  - injection H as <-. simpl. rewrite (g_eqb _ _ E). reflexivity.
  - destruct (remove_first eqb a l) as [l0|]; [|discriminate H].
    injection H as <-. simpl. rewrite (IH l0 eq_refl). unfold qsum. simpl. ring.
Qed.

(** Lists with the same elements have the same sum. *)
Lemma same_elements_sum (l l' : list A) :
  same_elements eqb l l' = true -> qsum (map g l) == qsum (map g l').
Proof.
  revert l'. induction l as [|a l IH]; intros l' H; simpl in H.
  - destruct l'; [reflexivity | discriminate H].
  - destruct (remove_first eqb a l') as [l''|] eqn:R; [|discriminate H].
    rewrite (remove_first_sum _ _ _ R). simpl. rewrite (IH _ H). reflexivity.
Qed.

End SameElements.

Variable m : mesh.
Variable F : list Q.

(** What a side contributes to the integral of the derivative in
    direction [i] of the function with the vector [F]. *)
Let flux (i : nat) (k : (nat * nat) * (Q * Q)) : Q :=
  match i with
  | 0%nat => (nth (fst (fst k)) F 0 + nth (snd (fst k)) F 0) * snd (snd k)
  | 1%nat => - ((nth (fst (fst k)) F 0 + nth (snd (fst k)) F 0) * fst (snd k))
  | _ => 0
  end.

Lemma flux_eqb i k k' : key_eqb k k' = true -> flux i k == flux i k'.
Proof.
  unfold key_eqb. rewrite !andb_true_iff.
  intros [[[H1 H2] H3] H4].
  apply Nat.eqb_eq in H1, H2. apply Qeq_bool_iff in H3, H4.
  destruct i as [|[|i]]; simpl; rewrite ?H1, ?H2, ?H3, ?H4; reflexivity.
Qed.

Lemma flux_reversed i e : flux i (reversed_key m e) == - flux i (edge_key m e).
Proof.
  destruct e as [p q], i as [|[|i]]; simpl; ring.
Qed.

Lemma flux_reversed_sum i (es : list (nat * nat)) :
  qsum (map (fun e => flux i (reversed_key m e)) es) ==
  - qsum (map (fun e => flux i (edge_key m e)) es).
Proof.
  induction es as [|e es IH]; unfold qsum in *; simpl; [ring|].
  rewrite IH, flux_reversed. ring.
Qed.

(** On a triangle that is not flat, area times derivative is half the
    sum of the contributions of its sides. *)
Lemma cell_divergence (c : nat * nat * nat) (i : nat) :
  ~ det m c == 0 ->
  volume m c * gradient m F c i ==
    (1 # 2) * qsum (map (fun e => flux i (edge_key m e)) (oriented_edges m c)).
Proof.
  destruct c as [[a b] d]. intros Hdet.
  unfold volume, oriented_edges.
  destruct (Qle_bool (det m (a, b, d)) 0) eqn:S.
  - apply Qle_bool_iff in S.
    rewrite (Qabs_neg _ S).
    destruct i as [|[|i]]; unfold gradient, qsum, value; simpl;
      unfold det in *; simpl in *; field; exact Hdet.
  - assert (0 <= det m (a, b, d)) as S'.
    { apply Qlt_le_weak, Qnot_le_lt. intros L.
      apply Qle_bool_iff in L. congruence. }
    rewrite (Qabs_pos _ S').
    destruct i as [|[|i]]; unfold gradient, qsum, value; simpl;
      unfold det in *; simpl in *; field; exact Hdet.
Qed.

Lemma cells_divergence (cs : list (nat * nat * nat)) (i : nat) :
  forallb (fun c => negb (Qeq_bool (det m c) 0)) cs = true ->
  qsum (map (fun c => volume m c * gradient m F c i) cs) ==
    (1 # 2) * qsum (map (fun e => flux i (edge_key m e))
                        (flat_map (oriented_edges m) cs)).
Proof.
  induction cs as [|c cs IH]; intros H.
  - unfold qsum. simpl. ring.
  - cbn [forallb] in H. apply andb_true_iff in H as [Hc Hcs].
    cbn [map flat_map]. rewrite map_app, qsum_app.
    change (qsum (?x :: ?l)) with (x + qsum l).
    rewrite (IH Hcs), cell_divergence; [ring|].
    intros E. apply Qeq_bool_iff in E. rewrite E in Hc. discriminate Hc.
Qed.

(** On a triangulation of the periodic cell the contributions of the
    sides cancel: the derivative of a function of the space integrates to
    0 in every direction. *)
Lemma no_mean_slope (i : nat) :
  periodic_triangulation m = true ->
  qsum (map (fun c => volume m c * gradient m F c i) (cells m)) == 0.
Proof.
  unfold periodic_triangulation. rewrite !andb_true_iff.
  intros [[Hdet Hpairs] _].
  rewrite (cells_divergence _ _ Hdet). fold (edges m).
  pose proof (same_elements_sum key_eqb (flux i) (flux_eqb i) _ _ Hpairs) as E.
  rewrite !map_map in E.
  rewrite flux_reversed_sum in E.
  set (S := qsum (map (fun e => flux i (edge_key m e)) (edges m))) in *.
  lra.
Qed.

End Divergence.

Section OnTriangulation.
Import P1.

Variable m : mesh.
Variable Mat : Type.
Variable assemble_vector : list Q -> list (list Q) -> Ufl.expr -> list Q.
Variable assemble_matrix : list Q -> list (list Q) -> Ufl.expr -> Mat.
Variable solve : Mat -> list Q -> list Q -> option (list Q).

Let on_mesh : Backend := space m Mat assemble_vector assemble_matrix solve.
#[local] Existing Instance on_mesh.

(** An integral over the cells by their number is a sum over the list
    of cells. *)
Lemma integral_cells (h : nat * nat * nat -> Q) :
  integral (fun c => h (cell m c)) ==
    qsum (map (fun c => volume m c * h c) (cells m)).
Proof.
  unfold integral, cell. simpl.
  assert (forall pre l,
            foldr (fun c s => volume m (nth c (pre ++ l) (0, 0, 0)%nat)
                              * h (nth c (pre ++ l) (0, 0, 0)%nat) + s)
                  0 (seq (length pre) (length l)) ==
            qsum (map (fun c => volume m c * h c) l)) as G.
  { intros pre l. revert pre.
    induction l as [|c l IH]; intros pre; [reflexivity|].
    simpl. rewrite app_nth2, Nat.sub_diag by lia. simpl.
    pose proof (IH (pre ++ [c])) as IH'.
    rewrite <- app_assoc, length_app in IH'. simpl in IH'.
    rewrite Nat.add_1_r in IH'. rewrite IH'. unfold qsum. reflexivity. }
  exact (G [] (cells m)).
Qed.

Lemma triangulation_area :
  periodic_triangulation m = true -> integral (fun _ => 1) == 1.
Proof.
  unfold periodic_triangulation. rewrite !andb_true_iff.
  intros [_ Harea]. apply Qeq_bool_iff in Harea.
  rewrite (integral_cells (fun _ => 1)).
  assert (forall l, qsum (map (fun c => volume m c * 1) l) ==
                    qsum (map (volume m) l)) as G.
  { induction l as [|c cs IH]; unfold qsum in *; simpl; [reflexivity|].
    rewrite IH. ring. }
  rewrite G. exact Harea.
Qed.

Lemma triangulation_mean_slope (F : Vec) (i : nat) :
  periodic_triangulation m = true ->
  integral (fun c => cell_gradient F c i) == 0.
Proof.
  intros H. simpl.
  rewrite (integral_cells (fun c => gradient m F c i)).
  apply no_mean_slope. exact H.
Qed.

(** C7.  On every triangulation of the periodic unit square, with the
    space the periodic boundary builds on it, with a tag for every cell
    (the same one or not) and with both permittivities equal to [a]:
    when the two solves return, whatever they return, the run produces
    the matrix diag(a, a); the diagonal entries are equal to [a] as
    rationals and the other two are 0.  With [a = 1] it is the identity
    matrix. *)
Theorem homogeneous_medium (markers : list Z) (a : Q) (f0 f1 : list Q) :
  periodic_triangulation m = true ->
  (num_cells <= length markers)%nat ->
  corrector (map (permittivity_of markers a a) (seq 0 num_cells)) 0 = Some f0 ->
  corrector (map (permittivity_of markers a a) (seq 0 num_cells)) 1 = Some f1 ->
  exists out,
    Y_solver markers a a = ret out
    /\ fst (fst (effective out)) == a
    /\ snd (fst (effective out)) = 0
    /\ fst (snd (effective out)) = 0
    /\ snd (snd (effective out)) == a
    /\ correctors out = (f0, f1).
Proof.
  intros Hm covered S0 S1.
  exact (homogeneous_run (B:=on_mesh) markers a f0 f1
           (triangulation_area Hm)
           (fun F i => triangulation_mean_slope F i Hm)
           covered S0 S1).
Qed.

End OnTriangulation.

(** ** Runs on the laminate *)

Section LaminateRuns.
#[local] Existing Instance Laminate.backend.

Import Laminate.

Lemma strips_covered : (num_cells <= length strips)%nat.
Proof. simpl. lia. Qed.

(** Across the strips the effective permittivity is the harmonic mean
    of the two permittivities, along them the arithmetic mean. *)
Example laminate_means :
  exists out,
    Y_solver strips 1 3 = ret out
    /\ matrix2_eq (effective out) ((3 # 2, 0), (0, 2)).
Proof.
  eexists. split.
  - rewrite (Y_solver_run _ _ _ strips_covered).
    apply finish_solved; vm_compute; discriminate.
  - repeat split; vm_compute; reflexivity.
Qed.

(** The solve gives up on the equation 0 * u1 = -2 that the
    permittivities 1 and -1 lead to. *)
Example laminate_unsolvable : Y_solver strips 1 (-1) = raise RuntimeError.
Proof.
  rewrite (Y_solver_run _ _ _ strips_covered).
  assert (corrector (map (permittivity_of strips 1 (-1)) (seq 0 num_cells)) 0
          = None) as -> by (vm_compute; reflexivity).
  reflexivity.
Qed.

Lemma effective_tensor_integrals_witness :
  let f := fun i =>
    default zero_vector
      (corrector (map (permittivity_of strips 1 (117 # 10)) (seq 0 num_cells)) i) in
  let k := permittivity_of strips 1 (117 # 10) in
  let A := fun i => integral (fun c => k c * (cell_gradient (f i) c i + 1)) in
  exists out,
    Y_solver strips 1 (117 # 10) = ret out
    /\ effective out = ((A 0%nat, 0), (0, A 1%nat))
    /\ correctors out = (f 0%nat, f 1%nat).
Proof.
  intros f.
  assert (corrector (map (permittivity_of strips 1 (117 # 10)) (seq 0 num_cells)) 0
          = Some (f 0%nat)) as S0 by (vm_compute; reflexivity).
  assert (corrector (map (permittivity_of strips 1 (117 # 10)) (seq 0 num_cells)) 1
          = Some (f 1%nat)) as S1 by (vm_compute; reflexivity).
  exact (effective_tensor_integrals strips 1 (117 # 10) f strips_covered S0 S1).
Defined.

Lemma off_diagonal_zero_witness :
  exists out,
    Y_solver strips 1 (117 # 10) = ret out
    /\ snd (fst (effective out)) = 0 /\ fst (snd (effective out)) = 0.
Proof.
  assert (exists out, Y_solver strips 1 (117 # 10) = ret out) as [out E].
  { eexists. rewrite (Y_solver_run _ _ _ strips_covered).
    apply finish_solved; vm_compute; discriminate. }
  exists out. split; [exact E|].
  exact (off_diagonal_zero strips 1 (117 # 10) out E).
Defined.

(** C9 fails as stated: with an outer permittivity of 0, and with an
    inner permittivity of -1, the run raises nothing, goes through both
    solves and produces a matrix. *)
Lemma nonpositive_permittivity_accepted :
  (exists out,
     Y_solver strips 1 0 = ret out
     /\ matrix2_eq (effective out) ((0, 0), (0, 1 # 2)))
  /\ (exists out,
        Y_solver strips (-1) 3 = ret out
        /\ matrix2_eq (effective out) ((- (3), 0), (0, 1))).
Proof.
  split; (eexists; split;
          [rewrite (Y_solver_run _ _ _ strips_covered);
           apply finish_solved; vm_compute; discriminate|]);
    repeat split; vm_compute; reflexivity.
Qed.

End LaminateRuns.

(** ** Runs on the triangulated laminate *)

Section TriangulatedLaminate.
Import P1.
#[local] Existing Instance strips_space.

Lemma strips_mesh_periodic : periodic_triangulation strips_mesh = true.
Proof. vm_compute. reflexivity. Qed.

(** On the 2 x 2 grid the periodic boundary leaves the four degrees of
    freedom of the vertices 0, 1, 3 and 4, and the grid is a
    triangulation of the periodic cell. *)
Example grid_mesh_periodic :
  map (master grid_mesh) (seq 0 9) = [0; 1; 0; 3; 4; 3; 0; 1; 0]%nat
  /\ periodic_triangulation grid_mesh = true.
Proof. split; vm_compute; reflexivity. Qed.

(** A mesh whose top and bottom edges do not match is not a
    triangulation of the periodic cell. *)
Example skewed_mesh_rejected : periodic_triangulation skewed_mesh = false.
Proof. vm_compute. reflexivity. Qed.

Lemma strips_mesh_covered (markers : list Z) :
  length markers = 4%nat -> (num_cells <= length markers)%nat.
Proof. intros ->. apply le_n. Qed.

(** The space built on the triangles gives the same effective matrix as
    the laminate computed by hand: harmonic mean across the strips,
    arithmetic mean along them. *)
Example triangulated_laminate_means :
  exists out,
    Y_solver Laminate.strips 1 3 = ret out
    /\ matrix2_eq (effective out) ((3 # 2, 0), (0, 2)).
Proof.
  eexists. split.
  - rewrite (Y_solver_run _ _ _ (strips_mesh_covered Laminate.strips eq_refl)).
    apply finish_solved; vm_compute; discriminate.
  - repeat split; vm_compute; reflexivity.
Qed.

Lemma homogeneous_medium_witness :
  let f := fun i =>
    default zero_vector
      (corrector (map (permittivity_of [2%Z; 2%Z; 2%Z; 2%Z] 1 1)
                      (seq 0 num_cells)) i) in
  exists out,
    Y_solver [2%Z; 2%Z; 2%Z; 2%Z] 1 1 = ret out
    /\ fst (fst (effective out)) == 1
    /\ snd (fst (effective out)) = 0
    /\ fst (snd (effective out)) = 0
    /\ snd (snd (effective out)) == 1
    /\ correctors out = (f 0%nat, f 1%nat).
Proof.
  intros f.
  assert (corrector (map (permittivity_of [2%Z; 2%Z; 2%Z; 2%Z] 1 1)
                         (seq 0 num_cells)) 0 = Some (f 0%nat)) as S0
    by (vm_compute; reflexivity).
  assert (corrector (map (permittivity_of [2%Z; 2%Z; 2%Z; 2%Z] 1 1)
                         (seq 0 num_cells)) 1 = Some (f 1%nat)) as S1
    by (vm_compute; reflexivity).
  exact (homogeneous_medium strips_mesh (list (list Q))
           (assemble_vector strips_mesh) (assemble_matrix strips_mesh)
           strips_solve [2%Z; 2%Z; 2%Z; 2%Z] 1 (f 0%nat) (f 1%nat)
           strips_mesh_periodic
           (strips_mesh_covered [2%Z; 2%Z; 2%Z; 2%Z] eq_refl) S0 S1).
Defined.

End TriangulatedLaminate.

(** * Further properties *)

(** ** Masters and slaves of the periodic boundary *)

Section Pairing.
Import Dolfin PeriodicBoundary.

(** Decide every tolerance test of the goal and turn the outcomes into
    inequalities. *)
Ltac near_cases :=
  repeat match goal with
         | |- context [near ?a ?b] => destruct (near a b) eqn:?N
         end;
  repeat match goal with
         | H : near _ _ = true |- _ => apply near_true_interval in H
         | H : near _ _ = false |- _ => apply near_false_interval in H
         end.

Ltac close_bounds :=
  repeat match goal with
         | H : close _ _ |- _ =>
             apply close_interval in H; unfold DOLFIN_EPS in H
         end.

(** X1.  A point accepted by [inside] has neither coordinate within
    tolerance of 1: a master point is never on the right or on the top
    edge, where [map] applies. *)
Theorem inside_off_mapped_edges (x : point) (on_boundary : bool) :
  inside x on_boundary = true ->
  ~ close (c0 x) 1 /\ ~ close (c1 x) 1.
Proof.
  intros H. unfold inside in H.
  split; intros C; close_bounds; revert H; near_cases; simpl;
    try discriminate; intros _; lra.
Qed.

Lemma inside_off_mapped_edges_witness :
  ~ close (c0 origin) 1 /\ ~ close (c1 origin) 1.
Proof. apply (inside_off_mapped_edges origin true). reflexivity. Defined.

(** X2.  A point with a coordinate within tolerance of 1 (on the right
    or on the top edge) is sent by [map] to a point that [inside]
    accepts: every slave point has a master. *)
Theorem map_reaches_inside (x y : point) :
  close (c0 x) 1 \/ close (c1 x) 1 ->
  inside (map x y) true = true.
Proof.
  intros H. rewrite <- !near_close in H.
  unfold map. destruct (near (c0 x) 1) eqn:N0; simpl.
  - destruct (near (c1 x) 1) eqn:N1; unfold inside; simpl;
      near_cases; simpl; try reflexivity; exfalso; lra.
  - destruct H as [H|H]; [discriminate H|].
    unfold inside; simpl.
    near_cases; simpl; try reflexivity; exfalso; lra.
Qed.

Lemma map_reaches_inside_witness :
  inside (map {| c0 := 1; c1 := 1 # 2 |} origin) true = true
  /\ inside (map {| c0 := 1 # 4; c1 := 1 |} origin) true = true.
Proof.
  split.
  - apply (map_reaches_inside {| c0 := 1; c1 := 1 # 2 |} origin).
    left. apply near_close. reflexivity.
  - apply (map_reaches_inside {| c0 := 1 # 4; c1 := 1 |} origin).
    right. apply near_close. reflexivity.
Defined.

(** X3.  A boundary point of the unit square (a coordinate within
    tolerance of 0 or of 1) is accepted by [inside] exactly when it has
    no coordinate within tolerance of 1: the points of the boundary
    split into masters and points [map] applies to, and no point is
    both. *)
Theorem boundary_master_or_slave (x : point) :
  close (c0 x) 0 \/ close (c1 x) 0 \/ close (c0 x) 1 \/ close (c1 x) 1 ->
  (inside x true = true <-> ~ (close (c0 x) 1 \/ close (c1 x) 1)).
Proof.
  intros H. rewrite <- !near_close in *.
  unfold inside. revert H. near_cases; simpl; intros H; split; intros G;
    try reflexivity; try discriminate G; try tauto;
    try (exfalso; lra);
    try (exfalso; apply G; tauto);
    try (intros [K|K]; discriminate K).
  all: exfalso; destruct H as [H|[H|[H|H]]]; discriminate H.
Qed.

Lemma boundary_master_or_slave_witness :
  inside {| c0 := 0; c1 := 1 # 2 |} true = true
  <-> ~ (close (c0 {| c0 := 0; c1 := 1 # 2 |}) 1
         \/ close (c1 {| c0 := 0; c1 := 1 # 2 |}) 1).
Proof.
  apply (boundary_master_or_slave {| c0 := 0; c1 := 1 # 2 |}).
  left. apply near_close. reflexivity.
Defined.

(** X5.  Applied to a point accepted by [inside] that is not above the
    unit square, [map] keeps the first coordinate and returns a point
    strictly below the square: [map] is meant for the points [inside]
    rejects. *)
Theorem map_of_master_leaves_cell (x y : point) (on_boundary : bool) :
  inside x on_boundary = true ->
  c1 x <= 1 ->
  c0 (map x y) = c0 x /\ c1 (map x y) < 0.
Proof.
  intros H Hle. unfold inside in H. unfold map.
  revert H. near_cases; simpl; try discriminate; intros _;
    (split; [reflexivity || (exfalso; lra) | lra]).
Qed.

Lemma map_of_master_leaves_cell_witness :
  c0 (map {| c0 := 0; c1 := 1 # 2 |} origin) = 0
  /\ c1 (map {| c0 := 0; c1 := 1 # 2 |} origin) < 0.
Proof.
  apply (map_of_master_leaves_cell {| c0 := 0; c1 := 1 # 2 |} origin true).
  - reflexivity.
  - simpl. lra.
Defined.

End Pairing.

(** ** What the solver sees of the tagging *)

Section Tagging.
Context {B : Backend}.

Lemma integral_ext_in (g h : nat -> Q) :
  (forall c, (c < num_cells)%nat -> g c = h c) -> integral g = integral h.
Proof.
  intros H. unfold integral.
  assert (forall c, In c (seq 0 num_cells) -> g c = h c) as Hin
    by (intros c Hc; apply H; apply in_seq in Hc; lia).
  induction (seq 0 num_cells) as [|c cs IH]; simpl; [reflexivity|].
  rewrite (Hin c) by now left.
  rewrite IH by (intros c' Hc'; apply Hin; now right).
  reflexivity.
Qed.

Lemma finish_ext (k k' : nat -> Q) (s0 s1 : option Vec) :
  (forall c, (c < num_cells)%nat -> k c = k' c) ->
  finish k s0 s1 = finish k' s0 s1.
Proof.
  intros Hk. unfold finish.
  destruct s0 as [f0|], s1 as [f1|]; try reflexivity.
  rewrite (integral_ext_in (fun c => k c * (cell_gradient f0 c 0 + 1))
                           (fun c => k' c * (cell_gradient f0 c 0 + 1)))
    by (intros c Hc; now rewrite (Hk c Hc)).
  rewrite (integral_ext_in (fun c => k c * (cell_gradient f1 c 1 + 1))
                           (fun c => k' c * (cell_gradient f1 c 1 + 1)))
    by (intros c Hc; now rewrite (Hk c Hc)).
  reflexivity.
Qed.

(** Two runs whose cells have the same permittivities end the same. *)
Lemma Y_solver_ext (markers markers' : list Z) (inner outer inner' outer' : Q) :
  (num_cells <= length markers)%nat ->
  (num_cells <= length markers')%nat ->
  (forall c, (c < num_cells)%nat ->
     permittivity_of markers inner outer c =
     permittivity_of markers' inner' outer' c) ->
  Y_solver markers inner outer = Y_solver markers' inner' outer'.
Proof.
  intros covered covered' Hk.
  rewrite (Y_solver_run _ _ _ covered), (Y_solver_run _ _ _ covered').
  assert (map (permittivity_of markers inner outer) (seq 0 num_cells) =
          map (permittivity_of markers' inner' outer') (seq 0 num_cells)) as ->.
  { apply map_ext_in. intros c Hc. apply Hk. apply in_seq in Hc. lia. }
  now apply finish_ext.
Qed.

(** X6.  Of a tagging the solver uses only which cells carry the tag 1:
    two taggings that cover the mesh and give the tag 1 to the same cells
    (whatever other tags they use elsewhere) lead to the same matrix and
    the same correctors. *)
Theorem tagging_matters_through_inclusion (markers markers' : list Z)
    (inner outer : Q) :
  (num_cells <= length markers)%nat ->
  (num_cells <= length markers')%nat ->
  (forall c, (c < num_cells)%nat ->
     (markers !! c = Some 1%Z <-> markers' !! c = Some 1%Z)) ->
  Y_solver markers inner outer = Y_solver markers' inner outer.
Proof.
  intros covered covered' Hsame. apply Y_solver_ext; try assumption.
  intros c Hc. unfold permittivity_of.
  destruct (decide (markers !! c = Some 1%Z)) as [E|E],
           (decide (markers' !! c = Some 1%Z)) as [E'|E'];
    try reflexivity; exfalso; apply (Hsame c Hc) in E || apply (Hsame c Hc) in E';
    contradiction.
Qed.

(** X7.  With the same permittivity for both phases the tagging has no
    influence at all: any two taggings that cover the mesh lead to the
    same matrix and the same correctors. *)
Theorem equal_permittivities_ignore_tagging (markers markers' : list Z) (a : Q) :
  (num_cells <= length markers)%nat ->
  (num_cells <= length markers')%nat ->
  Y_solver markers a a = Y_solver markers' a a.
Proof.
  intros covered covered'. apply Y_solver_ext; try assumption.
  intros c _. now rewrite !permittivity_of_equal.
Qed.

Lemma permittivity_of_swap (markers : list Z) (inner outer : Q) (c : nat) :
  (c < length markers)%nat ->
  permittivity_of (map swap_tag markers) outer inner c =
  permittivity_of markers inner outer c.
Proof.
  intros Hc. destruct (lookup_lt_is_Some_2 markers c Hc) as [tag Htag].
  unfold permittivity_of.
  change (map swap_tag markers) with (swap_tag <$> markers).
  rewrite list_lookup_fmap, Htag. simpl. unfold swap_tag.
  destruct (Z.eqb_spec tag 1) as [->|N].
  - rewrite decide_False by discriminate. now rewrite decide_True.
  - rewrite decide_True by reflexivity.
    rewrite decide_False; [reflexivity | congruence].
Qed.

(** X8.  Which phase is called the inclusion is a convention: with the
    tags exchanged (tag 1 becomes 2, every other tag becomes 1) and the
    two permittivities exchanged, the run ends as before. *)
Theorem phases_can_be_exchanged (markers : list Z) (inner outer : Q) :
  (num_cells <= length markers)%nat ->
  Y_solver (map swap_tag markers) outer inner = Y_solver markers inner outer.
Proof.
  intros covered. apply Y_solver_ext.
  - now rewrite length_map.
  - exact covered.
  - intros c Hc. apply permittivity_of_swap. lia.
Qed.

End Tagging.

Section TaggingRuns.
#[local] Existing Instance Laminate.backend.
Import Laminate.

Lemma tagging_matters_through_inclusion_witness :
  Y_solver strips 1 3 = Y_solver [1%Z; 1%Z; 0%Z; (-7)%Z] 1 3.
Proof.
  apply (tagging_matters_through_inclusion strips [1%Z; 1%Z; 0%Z; (-7)%Z] 1 3).
  - simpl. lia.
  - simpl. lia.
  - intros [|[|[|[|c]]]] Hc; simpl in Hc; try lia; simpl;
      split; intros E; (reflexivity || discriminate E).
Defined.

Lemma equal_permittivities_ignore_tagging_witness :
  Y_solver strips 3 3 = Y_solver [2%Z; 1%Z; 2%Z; 1%Z; 5%Z] 3 3.
Proof.
  apply (equal_permittivities_ignore_tagging strips [2%Z; 1%Z; 2%Z; 1%Z; 5%Z] 3).
  - simpl. lia.
  - simpl. lia.
Defined.

Lemma phases_can_be_exchanged_witness :
  Y_solver (map swap_tag strips) 3 1 = Y_solver strips 1 3.
Proof.
  apply (phases_can_be_exchanged strips 1 3). simpl. lia.
Defined.

End TaggingRuns.
